(** * RepRapFirmware G-code layer: command buffers, deferred queue, modal stack

    A shallow embedding of [GCodes.h].  The header gives the data layout of
    the three classes ([GCodeBuffer], [CodeQueueItem], [GCodes]) and the
    bodies of the inline member functions; those are transcribed below
    field by field and statement by statement.  Member functions that the
    header only declares are modelled from the design description and are
    marked as such where they are defined. *)

From Stdlib Require Import ZArith NArith Ascii String Floats.SpecFloat.
From stdpp Require Import base list.

Local Open Scope Z_scope.

(** ** Constants of the header *)

(** [#define STACK 5] *)
Definition STACK : Z := 5.

(** [#define GCODE_LENGTH 100] *)
Definition GCODE_LENGTH : nat := 100.

(** [const unsigned int codeQueueLength = 8;] *)
Definition codeQueueLength : nat := 8.

(** [unsigned int] on the target is 32 bits wide. *)
Definition UINT_MOD : Z := 2 ^ 32.

(** The value an [int] parameter takes from an integer argument: 32 bits,
    two's complement. *)
Definition to_int (z : Z) : Z := (z + 2 ^ 31) mod UINT_MOD - 2 ^ 31.


(** The terminating character of a C string. *)
Definition NUL : ascii := Ascii.zero.

(** The text held in a [char] array: everything before the first NUL. *)
Fixpoint CString (buf : list ascii) : list ascii :=
  match buf with
  | [] => []
  | c :: rest => if Ascii.eqb c NUL then [] else c :: CString rest
  end.

(** ** GCodeBuffer *)

Module GCodeBuffer.

(** [enum State { idle, executing, paused };] *)
Inductive State : Set := idle | executing | paused.

(** The integer value of an enumerator. *)
Definition State_value (s : State) : Z :=
  match s with idle => 0 | executing => 1 | paused => 2 end.

(** Conversion of an enumerator to [bool], as in [bool f = executing]. *)
Definition State_to_bool (s : State) : bool := negb (State_value s =? 0).

Definition State_eqb (a b : State) : bool := State_value a =? State_value b.

(** The private data of the class, in declaration order. *)
Record t : Type := mk {
  platform : nat;                         (* Platform* platform *)
  gcodeBuffer : list ascii;               (* char gcodeBuffer[GCODE_LENGTH] *)
  identity : string;                      (* const char* identity *)
  gcodePointer : Z;                       (* int gcodePointer *)
  readPointer : Z;                        (* int readPointer *)
  inComment : bool;
  checksumRequired : bool;
  state : State;
  writingFileDirectory : option string;   (* const char*, possibly null *)
  toolNumberAdjust : Z
}.

(** The array type fixes the number of cells. *)
Definition well_sized (gb : t) : Prop := length (gcodeBuffer gb) = GCODE_LENGTH.

Definition set_state (s : State) (gb : t) : t :=
  mk (platform gb) (gcodeBuffer gb) (identity gb) (gcodePointer gb)
     (readPointer gb) (inComment gb) (checksumRequired gb) s
     (writingFileDirectory gb) (toolNumberAdjust gb).

Definition set_gcodeBuffer (b : list ascii) (gb : t) : t :=
  mk (platform gb) b (identity gb) (gcodePointer gb)
     (readPointer gb) (inComment gb) (checksumRequired gb) (state gb)
     (writingFileDirectory gb) (toolNumberAdjust gb).

Definition set_checksumRequired (b : bool) (gb : t) : t :=
  mk (platform gb) (gcodeBuffer gb) (identity gb) (gcodePointer gb)
     (readPointer gb) (inComment gb) b (state gb)
     (writingFileDirectory gb) (toolNumberAdjust gb).

Definition set_writingFileDirectory (d : option string) (gb : t) : t :=
  mk (platform gb) (gcodeBuffer gb) (identity gb) (gcodePointer gb)
     (readPointer gb) (inComment gb) (checksumRequired gb) (state gb)
     d (toolNumberAdjust gb).

Definition set_toolNumberAdjust (a : Z) (gb : t) : t :=
  mk (platform gb) (gcodeBuffer gb) (identity gb) (gcodePointer gb)
     (readPointer gb) (inComment gb) (checksumRequired gb) (state gb)
     (writingFileDirectory gb) a.

(** [const char* Buffer() const { return gcodeBuffer; }] *)
Definition Buffer (gb : t) : list ascii := gcodeBuffer gb.

(** The command text a reader of [Buffer()] sees: the C string it points to. *)
Definition Text (gb : t) : list ascii := CString (Buffer gb).

(** [bool Active() const { return state == executing; }] *)
Definition Active (gb : t) : bool := State_eqb (state gb) executing.

(** [[
    void SetFinished(bool f)
    {
      if (f) { state = idle; gcodeBuffer[0] = 0; }
      else   { f = executing; }
    }
    ]]
    The [else] branch assigns to the by-value parameter [f]; the object
    is not touched.  The function returns the object and the final value
    of the local. *)
Definition SetFinished_body (f : bool) (gb : t) : t * bool :=
  if f then
    let gb1 := set_state idle gb in
    let gb2 := set_gcodeBuffer (<[0%nat := NUL]> (gcodeBuffer gb1)) gb1 in
    (gb2, f)
  else
    let f' := State_to_bool executing in
    (gb, f').

Definition SetFinished (f : bool) (gb : t) : t := fst (SetFinished_body f gb).

(** [void Pause() { if (state == executing) state = paused; }] *)
Definition Pause (gb : t) : t :=
  if State_eqb (state gb) executing then set_state paused gb else gb.

(** [void Resume() { if (state == paused) state = executing; }] *)
Definition Resume (gb : t) : t :=
  if State_eqb (state gb) paused then set_state executing gb else gb.

(** [const char* WritingFileDirectory() const] *)
Definition WritingFileDirectory (gb : t) : option string := writingFileDirectory gb.

(** [void SetWritingFileDirectory(const char* wfd)] *)
Definition SetWritingFileDirectory (wfd : option string) (gb : t) : t :=
  set_writingFileDirectory wfd gb.

(** [int GetToolNumberAdjust() const] *)
Definition GetToolNumberAdjust (gb : t) : Z := toolNumberAdjust gb.

(** [void SetToolNumberAdjust(int arg) { toolNumberAdjust = arg; }] *)
Definition SetToolNumberAdjust (arg : Z) (gb : t) : t :=
  set_toolNumberAdjust (to_int arg) gb.

(** [void SetCommsProperties(uint32_t arg) { checksumRequired = (arg & 1); }] *)
Definition SetCommsProperties (arg : Z) (gb : t) : t :=
  set_checksumRequired (negb (Z.land (arg mod UINT_MOD) 1 =? 0)) gb.

(** *** Checksummed line framing *)




















(** A buffer of [GCODE_LENGTH] cells holding [text], NUL-padded. *)
Definition holding (id : string) (text : string) : t :=
  let cs := list_ascii_of_string text in
  mk 0%nat (cs ++ replicate (GCODE_LENGTH - length cs) NUL) id 0 0 false false idle None 0.

(** *** Runs of calls *)

(** A call of one of the three lifecycle members. *)
Inductive Call : Set :=
  | CallSetFinished (f : bool)
  | CallPause
  | CallResume.

#[global] Instance Call_eq_dec : EqDecision Call.
Proof. solve_decision. Defined.

Definition call (c : Call) (gb : t) : t :=
  match c with
  | CallSetFinished f => SetFinished f gb
  | CallPause => Pause gb
  | CallResume => Resume gb
  end.

(** The calls of a list, made one after the other. *)
Definition calls (cs : list Call) (gb : t) : t :=
  fold_left (fun b c => call c b) cs gb.

(** Two buffers agree on every member but [state] and [gcodeBuffer]. *)
Definition same_settings (a b : t) : Prop :=
  platform a = platform b /\ identity a = identity b /\
  gcodePointer a = gcodePointer b /\ readPointer a = readPointer b /\
  inComment a = inComment b /\ checksumRequired a = checksumRequired b /\
  writingFileDirectory a = writingFileDirectory b /\
  toolNumberAdjust a = toolNumberAdjust b.

(** Two buffers have arrays of the same size that agree from cell 1 on. *)
Definition same_beyond_first (a b : t) : Prop :=
  length (gcodeBuffer a) = length (gcodeBuffer b) /\
  forall i : nat, (0 < i)%nat -> gcodeBuffer a !! i = gcodeBuffer b !! i.

(** A call of one of the three members that configure the channel. *)
Inductive Setting : Type :=
  | SettingToolNumberAdjust (arg : Z)
  | SettingWritingFileDirectory (wfd : option string)
  | SettingCommsProperties (arg : Z).

Definition configure (s : Setting) (gb : t) : t :=
  match s with
  | SettingToolNumberAdjust arg => SetToolNumberAdjust arg gb
  | SettingWritingFileDirectory wfd => SetWritingFileDirectory wfd gb
  | SettingCommsProperties arg => SetCommsProperties arg gb
  end.

End GCodeBuffer.

(** ** Recoverable error conditions of the coordinator *)

Inductive Error : Set :=
  | QueueFull
  | StackOverflow
  | StackUnderflow
  | MoveRejected.

Inductive Result : Set :=
  | Ok
  | Err (e : Error).

(** ** CodeQueueItem and the internal code queue *)

Module CodeQueue.

(** The private data of [CodeQueueItem].  A record of the pool is known by
    its address; the [next] pointer is the position in the list that holds
    the record. *)
Record CodeQueueItem : Type := mkItem {
  addr : nat;                       (* which record of the pool this is *)
  command : list ascii;             (* char command[GCODE_LENGTH] *)
  commandLength : nat;              (* size_t commandLength *)
  moveToExecute : Z;                (* unsigned int moveToExecute *)
  source : string;                  (* GCodeBuffer* source, by identity *)
  executing : bool
}.

(** [unsigned int ExecuteAtMove() const] *)
Definition ExecuteAtMove (it : CodeQueueItem) : Z := moveToExecute it.


(** [size_t GetCommandLength() const] *)
Definition GetCommandLength (it : CodeQueueItem) : nat := commandLength it.


(** [bool IsExecuting() const] *)
Definition IsExecuting (it : CodeQueueItem) : bool := executing it.

(** Modelled from the spec: the body of
    [void Init(GCodeBuffer* gb, unsigned int executeAtMove)], declared in
    the header only.  The record takes a copy of the command text and the
    identity of the channel, and the move index at which it becomes
    eligible. *)
Definition Init (gb : GCodeBuffer.t) (executeAtMove : Z) (it : CodeQueueItem) : CodeQueueItem :=
  mkItem (addr it) (GCodeBuffer.Text gb) (length (GCodeBuffer.Text gb))
         (executeAtMove mod UINT_MOD) (GCodeBuffer.identity gb) false.

(** The two lists of [GCodes] that thread the pool:
    [internalCodeQueue], the queued codes in arrival order, and
    [releasedQueueItems], the free records. *)
Record t : Type := mk {
  internalCodeQueue : list CodeQueueItem;
  releasedQueueItems : list CodeQueueItem
}.

(** A pool record that holds nothing yet. *)
Definition blank (a : nat) : CodeQueueItem := mkItem a [] 0 0 "" false.

(** Modelled from the spec: the pool as set up at start, [codeQueueLength]
    free records and nothing queued. *)
Definition empty : t := mk [] (blank <$> seq 0 codeQueueLength).

(** Is the item due once [completedMoveIndex] moves have completed? *)
Definition due (completedMoveIndex : Z) (it : CodeQueueItem) : bool :=
  ExecuteAtMove it <=? completedMoveIndex.

(** Modelled from the spec: [Enqueue(item, targetMoveIndex)].  It fails
    with QueueFull when the free pool is exhausted and changes nothing;
    otherwise it takes a free record, fills it from the buffer and appends
    it to the active list. *)
Definition Enqueue (gb : GCodeBuffer.t) (targetMoveIndex : Z) (q : t) : Result * t :=
  match releasedQueueItems q with
  | [] => (Err QueueFull, q)
  | it :: free =>
      (Ok, mk (internalCodeQueue q ++ [Init gb targetMoveIndex it]) free)
  end.

(** Modelled from the spec: one pass over the active list, the loop of
    [PollDue].  The result is the items handed out for execution, the
    items that stay queued and the free list. *)
Fixpoint scan (completedMoveIndex : Z) (active released : list CodeQueueItem)
  : list CodeQueueItem * list CodeQueueItem * list CodeQueueItem :=
  match active with
  | [] => ([], [], released)
  | it :: rest =>
      if due completedMoveIndex it then
        let '(out, keep, free) := scan completedMoveIndex rest (it :: released) in
        (it :: out, keep, free)
      else
        let '(out, keep, free) := scan completedMoveIndex rest released in
        (out, it :: keep, free)
  end.

(** Modelled from the spec: [PollDue(completedMoveIndex)].  It scans the
    active list and every item whose target has been reached is returned
    for execution and released to the free pool. *)
Definition PollDue (completedMoveIndex : Z) (q : t) : list CodeQueueItem * t :=
  let '(out, keep, free) :=
    scan completedMoveIndex (internalCodeQueue q) (releasedQueueItems q) in
  (out, mk keep free).

(** The pool holds [codeQueueLength] records, each in exactly one list. *)
Definition well_formed (q : t) : Prop :=
  NoDup (addr <$> (internalCodeQueue q ++ releasedQueueItems q)) /\
  length (internalCodeQueue q ++ releasedQueueItems q) = codeQueueLength.

(** The number of items waiting. *)
Definition pending (q : t) : nat := length (internalCodeQueue q).

(** The target of the item has been reached by [completedMoveIndex]. *)
Definition Due (completedMoveIndex : Z) (it : CodeQueueItem) : Prop :=
  ExecuteAtMove it <= completedMoveIndex.

#[global] Instance Due_dec (c : Z) (it : CodeQueueItem) : Decision (Due c it) :=
  Z_le_dec (ExecuteAtMove it) c.

(** Several codes enqueued one after the other, with the result of each. *)
Fixpoint Enqueues (codes : list (GCodeBuffer.t * Z)) (q : t) : list Result * t :=
  match codes with
  | [] => ([], q)
  | (gb, target) :: rest =>
      let '(r, q1) := Enqueue gb target q in
      let '(rs, q2) := Enqueues rest q1 in
      (r :: rs, q2)
  end.

(** Modelled from the spec: [MoveCompleted], the interrupt-side increment
    of the [volatile unsigned int] completion counter. *)
Definition MoveCompleted (movesCompleted : Z) : Z := (movesCompleted + 1) mod UINT_MOD.

End CodeQueue.

(** ** Values shared by the fields of [GCodes] *)

(** [float]: an IEEE 754 value. *)
Definition float : Set := spec_float.

(** [0.0] *)
Definition float_zero : float := S754_zero false.

(** [-1.0] *)
Definition float_minus_one : float := S754_finite true 8388608 (-23).

(** [x >= 0.0] on IEEE values: the comparison is defined and is not "less". *)
Definition float_ge_zero (x : float) : Prop :=
  SFcompare x float_zero = Some Eq \/ SFcompare x float_zero = Some Gt.

(** Modelled from the spec: [FileData], declared outside the header.  A
    file handle is live or not, and a live one knows which fraction of the
    file has been read. *)
Record FileData : Type := mkFile {
  IsLive : bool;
  FractionRead : float
}.

(** ** The modal state of [GCodes] and its stack *)

Module ModalStack.

(** The members of [GCodes] that [Push] and [Pop] read and write: the live
    modal state, the six arrays of [STACK] cells and the stack pointer. *)
Record t : Type := mk {
  drivesRelative : bool;
  axesRelative : bool;
  feedrate : float;                            (* moveBuffer[DRIVES] *)
  lastExtruderPosition : list float;           (* float [DRIVES - AXES] *)
  fileBeingPrinted : FileData;
  doingFileMacro : bool;
  drivesRelativeStack : list bool;             (* bool [STACK] *)
  axesRelativeStack : list bool;               (* bool [STACK] *)
  feedrateStack : list float;                  (* float [STACK] *)
  extruderPositionStack : list (list float);   (* float [STACK][DRIVES-AXES] *)
  fileStack : list FileData;                   (* FileData [STACK] *)
  doingFileMacroStack : list bool;             (* bool [STACK] *)
  stackPointer : Z                             (* int8_t stackPointer *)
}.

(** The arrays have [STACK] cells and the pointer stays within them. *)
Definition well_formed (g : t) : Prop :=
  0 <= stackPointer g <= STACK /\
  length (drivesRelativeStack g) = Z.to_nat STACK /\
  length (axesRelativeStack g) = Z.to_nat STACK /\
  length (feedrateStack g) = Z.to_nat STACK /\
  length (extruderPositionStack g) = Z.to_nat STACK /\
  length (fileStack g) = Z.to_nat STACK /\
  length (doingFileMacroStack g) = Z.to_nat STACK.

(** Reading cell [i] of an array; [d] stands for what a read outside the
    array would give. *)
Definition cell {A : Type} (d : A) (a : list A) (i : Z) : A :=
  default d (a !! Z.to_nat i).

(** Modelled from the spec: [bool Push()], declared in the header only.
    It fails with StackOverflow when the depth would exceed [STACK] and
    changes nothing; otherwise it copies the live modal state into the
    frame at the current depth and increments the depth. *)
Definition Push (g : t) : Result * t :=
  if STACK <=? stackPointer g then (Err StackOverflow, g)
  else
    let i := Z.to_nat (stackPointer g) in
    (Ok, mk (drivesRelative g) (axesRelative g) (feedrate g)
            (lastExtruderPosition g) (fileBeingPrinted g) (doingFileMacro g)
            (<[i := drivesRelative g]> (drivesRelativeStack g))
            (<[i := axesRelative g]> (axesRelativeStack g))
            (<[i := feedrate g]> (feedrateStack g))
            (<[i := lastExtruderPosition g]> (extruderPositionStack g))
            (<[i := fileBeingPrinted g]> (fileStack g))
            (<[i := doingFileMacro g]> (doingFileMacroStack g))
            (stackPointer g + 1)).

(** Modelled from the spec: [bool Pop()], declared in the header only.  It
    fails with StackUnderflow when the depth is 0; otherwise it decrements
    the depth and restores the live modal state from the top frame. *)
Definition Pop (g : t) : Result * t :=
  if stackPointer g <? 1 then (Err StackUnderflow, g)
  else
    let i := stackPointer g - 1 in
    (Ok, mk (cell (drivesRelative g) (drivesRelativeStack g) i)
            (cell (axesRelative g) (axesRelativeStack g) i)
            (cell (feedrate g) (feedrateStack g) i)
            (cell (lastExtruderPosition g) (extruderPositionStack g) i)
            (cell (fileBeingPrinted g) (fileStack g) i)
            (cell (doingFileMacro g) (doingFileMacroStack g) i)
            (drivesRelativeStack g) (axesRelativeStack g) (feedrateStack g)
            (extruderPositionStack g) (fileStack g) (doingFileMacroStack g)
            i).

(** A feedrate change: an assignment to [moveBuffer[DRIVES]]. *)
Definition SetFeedrate (f : float) (g : t) : t :=
  mk (drivesRelative g) (axesRelative g) f
     (lastExtruderPosition g) (fileBeingPrinted g) (doingFileMacro g)
     (drivesRelativeStack g) (axesRelativeStack g) (feedrateStack g)
     (extruderPositionStack g) (fileStack g) (doingFileMacroStack g)
     (stackPointer g).

(** The modal state at start: absolute moves, no file, an empty stack. *)
Definition initial : t :=
  let dead := mkFile false float_zero in
  mk false false float_zero [float_zero] dead false
     (replicate 5 false) (replicate 5 false) (replicate 5 float_zero)
     (replicate 5 [float_zero]) (replicate 5 dead) (replicate 5 false) 0.

(** The frame saved at depth [i]. *)
Definition frame (g : t) (i : nat)
  : option bool * option bool * option float * option (list float)
    * option FileData * option bool :=
  (drivesRelativeStack g !! i, axesRelativeStack g !! i, feedrateStack g !! i,
   extruderPositionStack g !! i, fileStack g !! i, doingFileMacroStack g !! i).

(** [n] pushes in a row, with the result of each. *)
Fixpoint Pushes (n : nat) (g : t) : list Result * t :=
  match n with
  | O => ([], g)
  | S k => let '(r, g1) := Push g in
           let '(rs, g2) := Pushes k g1 in
           (r :: rs, g2)
  end.

End ModalStack.

(** ** The move buffer of [GCodes] *)

Module MoveBuffer.

(** The members of [GCodes] that hand a move to the Move class, and the two
    move counters. *)
Record t : Type := mk {
  moveAvailable : bool;           (* Have we seen a move G Code and set it up? *)
  moveBuffer : list float;        (* float [DRIVES+1]; last is feed rate *)
  endStopsToCheck : Z;            (* EndstopChecks, a uint16_t *)
  totalMoves : Z;                 (* unsigned int *)
  movesCompleted : Z              (* volatile unsigned int *)
}.

(** A move request: the target of each drive with the feedrate, and the
    end stops to honour. *)
Definition MoveRequest : Type := list float * Z.

(** Modelled from the spec: the loading of the move buffer
    ([LoadMoveBufferFromGCode] through [SetUpMove]), declared in the header
    only.  [parsed] is the request the command translates to, or [None]
    when the command is rejected.  Nothing is loaded while the previous
    request is still waiting to be read. *)
Definition SetUpMove (parsed : option MoveRequest) (g : t) : option Result * t :=
  if moveAvailable g then (None, g)
  else match parsed with
       | None => (Some (Err MoveRejected), g)
       | Some (m, ce) =>
           (Some Ok, mk true m ce (totalMoves g) (movesCompleted g))
       end.

(** Modelled from the spec: [bool ReadMove(float* m, EndstopChecks& ce)],
    declared in the header only.  The Move class takes the pending request,
    if there is one, and the buffer is free again. *)
Definition ReadMove (g : t) : option MoveRequest * t :=
  if moveAvailable g
  then (Some (moveBuffer g, endStopsToCheck g),
        mk false (moveBuffer g) (endStopsToCheck g) (totalMoves g) (movesCompleted g))
  else (None, g).

(** Modelled from the spec: [void MoveQueued()], the Move class announcing
    a new move. *)
Definition MoveQueued (g : t) : t :=
  mk (moveAvailable g) (moveBuffer g) (endStopsToCheck g)
     ((totalMoves g + 1) mod UINT_MOD) (movesCompleted g).

(** Modelled from the spec: [void MoveCompleted()], called from the
    interrupt as each move finishes. *)
Definition MoveCompleted (g : t) : t :=
  mk (moveAvailable g) (moveBuffer g) (endStopsToCheck g)
     (totalMoves g) (CodeQueue.MoveCompleted (movesCompleted g)).

(** What can happen to the move buffer. *)
Inductive Event : Type :=
  | EvSetUpMove (parsed : option MoveRequest)
  | EvReadMove
  | EvMoveQueued
  | EvMoveCompleted.

(** The requests loaded and not yet read, oldest first, kept beside the
    state to speak about the history. *)
Definition step (e : Event) (s : t * list MoveRequest) : t * list MoveRequest :=
  let '(g, unread) := s in
  match e with
  | EvSetUpMove parsed =>
      match SetUpMove parsed g, parsed with
      | (Some Ok, g'), Some r => (g', unread ++ [r])
      | (_, g'), _ => (g', unread)
      end
  | EvReadMove =>
      match ReadMove g with
      | (Some _, g') => (g', tail unread)
      | (None, g') => (g', unread)
      end
  | EvMoveQueued => (MoveQueued g, unread)
  | EvMoveCompleted => (MoveCompleted g, unread)
  end.

(** The state at start: nothing loaded. *)
Definition initial (m : list float) : t := mk false m 0 0 0.

(** The state after a run of events, from the start. *)
Definition run (m : list float) (es : list Event) : t * list MoveRequest :=
  fold_left (fun s e => step e s) es (initial m, []).

(** What the unread requests must be, given the buffer. *)
Definition agrees (s : t * list MoveRequest) : Prop :=
  snd s = if moveAvailable (fst s)
          then [(moveBuffer (fst s), endStopsToCheck (fst s))]
          else [].

End MoveBuffer.

(** ** File progress *)

Module Progress.

(** The members of [GCodes] behind the progress queries. *)
Record t : Type := mk {
  fileBeingPrinted : FileData;
  doingFileMacro : bool;
  fractionOfFilePrinted : float
}.

(** Modelled from the spec: [float FractionOfFilePrinted() const], declared
    in the header only, with the comment that it returns the current
    file-based progress or -1.0 if no file is being printed. *)
Definition FractionOfFilePrinted (g : t) : float :=
  if IsLive (fileBeingPrinted g) then FractionRead (fileBeingPrinted g)
  else float_minus_one.

(** [bool PrintingAFile() const { return (FractionOfFilePrinted() >= 0.0); }] *)
Definition PrintingAFile (g : t) : bool :=
  SFleb float_zero (FractionOfFilePrinted g).

(** [bool DoingFileMacro() const { return doingFileMacro; }] *)
Definition DoingFileMacro (g : t) : bool := doingFileMacro g.

End Progress.

(** ** Homing flags *)

Module Homing.

(** The members of [GCodes] that record what is being homed and what has
    been homed. *)
Record t : Type := mk {
  homing : bool;
  homeX : bool;
  homeY : bool;
  homeZ : bool;
  axisIsHomed : list bool;          (* bool axisIsHomed[3] *)
  coolingInverted : bool
}.

(** The array type fixes the number of cells. *)
Definition well_sized (g : t) : Prop := length (axisIsHomed g) = 3%nat.







End Homing.

(** * Properties *)

(** ** GCodeBuffer: the lifecycle operations of the header *)

Section BufferLifecycle.

Import GCodeBuffer.

Implicit Type gb : GCodeBuffer.t.

Lemma CString_NUL_first (buf : list ascii) :
  (0 < length buf)%nat -> CString (<[0%nat := NUL]> buf) = [].
Proof.
  destruct buf as [|c rest]; simpl; [lia | reflexivity].
Qed.

Lemma State_eqb_eq (a b : State) : State_eqb a b = true <-> a = b.
Proof.
  destruct a, b; unfold State_eqb; simpl; split; intro H;
    solve [reflexivity | discriminate].
Qed.

Lemma Pause_not_executing gb : state gb <> executing -> Pause gb = gb.
Proof.
  intro Hne. unfold Pause.
  destruct (State_eqb (state gb) executing) eqn:E; [|reflexivity].
  apply State_eqb_eq in E. contradiction.
Qed.

Lemma Resume_not_paused gb : state gb <> paused -> Resume gb = gb.
Proof.
  intro Hne. unfold Resume.
  destruct (State_eqb (state gb) paused) eqn:E; [|reflexivity].
  apply State_eqb_eq in E. contradiction.
Qed.

Lemma Pause_state gb : state (Pause gb) <> executing.
Proof.
  unfold Pause. destruct (state gb) eqn:E; simpl; rewrite ?E; discriminate.
Qed.

Lemma Resume_state gb : state (Resume gb) <> paused.
Proof.
  unfold Resume. destruct (state gb) eqn:E; simpl; rewrite ?E; discriminate.
Qed.

(** C6: a buffer in the Executing state that is marked finished
    ([SetFinished(true)]) is Idle afterwards and holds the empty text; no
    other member changes. *)
Theorem SetFinished_true_idle_and_empty gb :
  well_sized gb ->
  state gb = executing ->
  let gb' := SetFinished true gb in
  state gb' = idle /\
  Text gb' = [] /\
  gcodeBuffer gb' !! 0%nat = Some NUL /\
  Active gb' = false /\
  readPointer gb' = readPointer gb /\
  gcodePointer gb' = gcodePointer gb /\
  checksumRequired gb' = checksumRequired gb /\
  identity gb' = identity gb.
Proof.
  intros Hsize Hexec. unfold well_sized, GCODE_LENGTH in Hsize.
  simpl. unfold Text, Buffer. simpl.
  assert (Hpos : (0 < length (gcodeBuffer gb))%nat) by lia.
  repeat split.
  - by apply CString_NUL_first.
  - by apply list_lookup_insert_eq.
Qed.

Lemma SetFinished_true_idle_and_empty_witness :
  let gb := set_state executing (holding "serial" "G1 X10") in
  Text gb = list_ascii_of_string "G1 X10" /\
  state (SetFinished true gb) = idle /\
  Text (SetFinished true gb) = [].
Proof.
  pose proof (SetFinished_true_idle_and_empty
                (set_state executing (holding "serial" "G1 X10"))
                eq_refl eq_refl) as H.
  simpl in H. destruct H as (H1 & H2 & _).
  split; [reflexivity | split; [exact H1 | exact H2]].
Defined.

(** C7: [Pause] takes an Executing buffer to Paused and [Resume] takes a
    Paused buffer to Executing; in both cases the contents, the read
    cursor and every other member are as before. *)
Theorem Pause_Resume_transitions gb :
  (state gb = executing ->
     Pause gb = set_state paused gb /\
     state (Pause gb) = paused /\
     gcodeBuffer (Pause gb) = gcodeBuffer gb /\
     Text (Pause gb) = Text gb /\
     readPointer (Pause gb) = readPointer gb /\
     gcodePointer (Pause gb) = gcodePointer gb) /\
  (state gb = paused ->
     Resume gb = set_state executing gb /\
     state (Resume gb) = executing /\
     gcodeBuffer (Resume gb) = gcodeBuffer gb /\
     Text (Resume gb) = Text gb /\
     readPointer (Resume gb) = readPointer gb /\
     gcodePointer (Resume gb) = gcodePointer gb).
Proof.
  split; intro Hs.
  - unfold Pause. rewrite Hs. simpl. repeat split.
  - unfold Resume. rewrite Hs. simpl. repeat split.
Qed.

Lemma Pause_Resume_transitions_witness :
  let gb := set_state executing (holding "file" "G1 X10 Y20") in
  state (Pause gb) = paused /\
  state (Resume (Pause gb)) = executing /\
  Resume (Pause gb) = gb.
Proof.
  pose proof (Pause_Resume_transitions
                (set_state executing (holding "file" "G1 X10 Y20"))) as [HP _].
  pose proof (Pause_Resume_transitions
                (Pause (set_state executing (holding "file" "G1 X10 Y20")))) as [_ HR].
  specialize (HP eq_refl). specialize (HR eq_refl).
  destruct HP as (_ & HP & _). destruct HR as (_ & HR & _).
  split; [exact HP | split; [exact HR | reflexivity]].
Defined.

(** C9: [SetFinished(false)] changes nothing in the buffer, whatever its
    state: the lifecycle state, the text and the read cursor are as before,
    and a buffer that was not Executing is not Executing afterwards. *)
Theorem SetFinished_false_unchanged gb :
  SetFinished false gb = gb /\
  state (SetFinished false gb) = state gb /\
  gcodeBuffer (SetFinished false gb) = gcodeBuffer gb /\
  readPointer (SetFinished false gb) = readPointer gb /\
  (state gb <> executing -> state (SetFinished false gb) <> executing).
Proof.
  unfold SetFinished, SetFinished_body. simpl. repeat split. auto.
Qed.

(** C10: [Pause] on a buffer that is not Executing and [Resume] on a
    buffer that is not Paused change nothing; hence pausing twice is
    pausing once and resuming twice is resuming once. *)
Theorem Pause_Resume_idempotent gb :
  (state gb <> executing -> Pause gb = gb) /\
  (state gb <> paused -> Resume gb = gb) /\
  Pause (Pause gb) = Pause gb /\
  Resume (Resume gb) = Resume gb.
Proof.
  split; [apply Pause_not_executing|].
  split; [apply Resume_not_paused|].
  split.
  - apply Pause_not_executing, Pause_state.
  - apply Resume_not_paused, Resume_state.
Qed.

Lemma SetFinished_false_unchanged_witness :
  let gb := set_state paused (holding "web" "M105") in
  SetFinished false gb = gb /\ state (SetFinished false gb) <> executing.
Proof.
  pose proof (SetFinished_false_unchanged (set_state paused (holding "web" "M105")))
    as (H1 & _ & _ & _ & H5).
  split; [exact H1 | apply H5; discriminate].
Defined.

Lemma Pause_Resume_idempotent_witness :
  let gb := holding "aux" "M105" in
  Pause gb = gb /\ Resume gb = gb /\
  Pause (Pause (set_state executing gb)) = set_state paused gb.
Proof.
  pose proof (Pause_Resume_idempotent (holding "aux" "M105")) as (H1 & H2 & _).
  pose proof (Pause_Resume_idempotent (set_state executing (holding "aux" "M105")))
    as (_ & _ & H3 & _).
  split; [apply H1; discriminate|].
  split; [apply H2; discriminate|].
  rewrite H3. reflexivity.
Defined.

End BufferLifecycle.

(** ** Progress queries *)

Section ProgressQueries.

Import Progress.

Lemma SFleb_zero_ge (x : float) :
  SFleb float_zero x = true <-> float_ge_zero x.
Proof.
  unfold float_ge_zero, SFleb, float_zero.
  destruct x as [s | s | | s m e]; try destruct s; simpl;
    split; intro H; try discriminate; auto;
    destruct H as [H | H]; discriminate.
Qed.

(** C8: [PrintingAFile] answers true exactly when the value returned by
    [FractionOfFilePrinted] is greater than or equal to 0.0; with no live
    file being printed that value is the sentinel -1.0 and the answer is
    false. *)
Theorem PrintingAFile_iff_fraction_nonnegative (g : Progress.t) :
  (PrintingAFile g = true <-> float_ge_zero (FractionOfFilePrinted g)) /\
  (IsLive (fileBeingPrinted g) = false ->
     FractionOfFilePrinted g = float_minus_one /\
     SFcompare (FractionOfFilePrinted g) float_zero = Some Lt /\
     PrintingAFile g = false).
Proof.
  split.
  - unfold PrintingAFile. apply SFleb_zero_ge.
  - intro Hdead. unfold PrintingAFile, FractionOfFilePrinted.
    rewrite Hdead. repeat split.
Qed.

Lemma PrintingAFile_iff_fraction_nonnegative_witness :
  let idle_machine := Progress.mk (mkFile false float_zero) false float_zero in
  FractionOfFilePrinted idle_machine = float_minus_one /\
  PrintingAFile idle_machine = false.
Proof.
  pose proof (PrintingAFile_iff_fraction_nonnegative
                (Progress.mk (mkFile false float_zero) false float_zero)) as [_ H].
  destruct (H eq_refl) as (H1 & _ & H3).
  split; [exact H1 | exact H3].
Defined.

End ProgressQueries.

(** ** The modal state stack *)

Section ModalStateStack.

Import ModalStack.

Implicit Type g : ModalStack.t.

Lemma cell_insert {A : Type} (d x : A) (a : list A) (i : Z) :
  0 <= i -> (Z.to_nat i < length a)%nat ->
  cell d (<[Z.to_nat i := x]> a) (i + 1 - 1) = x.
Proof.
  intros Hi Hlen. unfold cell.
  replace (i + 1 - 1) with i by lia.
  by rewrite list_lookup_insert_eq.
Qed.

Lemma Push_below_limit g :
  stackPointer g < STACK ->
  fst (Push g) = Ok /\ stackPointer (snd (Push g)) = stackPointer g + 1.
Proof.
  intro Hlt. unfold Push.
  destruct (STACK <=? stackPointer g) eqn:E; [lia|]. simpl. auto.
Qed.

Lemma Push_at_limit g :
  STACK <= stackPointer g -> Push g = (Err StackOverflow, g).
Proof.
  intro Hge. unfold Push.
  destruct (STACK <=? stackPointer g) eqn:E; [reflexivity | lia].
Qed.

Lemma Push_well_formed g : well_formed g -> well_formed (snd (Push g)).
Proof.
  intros (Hsp & H1 & H2 & H3 & H4 & H5 & H6). unfold Push.
  destruct (STACK <=? stackPointer g) eqn:E; simpl.
  - repeat split; auto; lia.
  - unfold well_formed; simpl. rewrite !length_insert.
    repeat split; auto; lia.
Qed.

Lemma Pop_well_formed g : well_formed g -> well_formed (snd (Pop g)).
Proof.
  intros (Hsp & H1 & H2 & H3 & H4 & H5 & H6). unfold Pop.
  destruct (stackPointer g <? 1) eqn:E; simpl.
  - repeat split; auto; lia.
  - apply Z.ltb_ge in E. unfold well_formed; simpl.
    repeat split; auto; lia.
Qed.

Lemma Push_keeps_frames_below g (j : nat) :
  (j < Z.to_nat (stackPointer g))%nat ->
  frame (snd (Push g)) j = frame g j.
Proof.
  intro Hj. unfold Push.
  destruct (STACK <=? stackPointer g); simpl; [reflexivity|].
  unfold frame; simpl.
  rewrite !list_lookup_insert_ne by lia. reflexivity.
Qed.

Lemma Push_change_Pop g (f : float) :
  well_formed g ->
  fst (Push g) = Ok ->
  let g1 := SetFeedrate f (snd (Push g)) in
  fst (Pop g1) = Ok /\
  feedrate (snd (Pop g1)) = feedrate g /\
  drivesRelative (snd (Pop g1)) = drivesRelative g /\
  axesRelative (snd (Pop g1)) = axesRelative g /\
  lastExtruderPosition (snd (Pop g1)) = lastExtruderPosition g /\
  fileBeingPrinted (snd (Pop g1)) = fileBeingPrinted g /\
  doingFileMacro (snd (Pop g1)) = doingFileMacro g /\
  stackPointer (snd (Pop g1)) = stackPointer g.
Proof.
  intros (Hsp & H1 & H2 & H3 & H4 & H5 & H6) Hok.
  unfold Push in *.
  destruct (STACK <=? stackPointer g) eqn:E; [discriminate|].
  apply Z.leb_gt in E. simpl. unfold Pop. simpl.
  destruct (stackPointer g + 1 <? 1) eqn:E1; [lia|]. simpl.
  assert (Hn : (Z.to_nat (stackPointer g) < Z.to_nat STACK)%nat) by lia.
  rewrite !cell_insert by (try lia; congruence).
  repeat split. lia.
Qed.

(** C2: from an empty stack five pushes in a row succeed and the sixth
    fails with StackOverflow leaving the whole state, live modal state and
    saved frames, as it was; [Pop] on the empty stack fails with
    StackUnderflow; and after a successful [Push] and a change of feedrate,
    [Pop] succeeds and the feedrate is again the one the [Push] saved. *)
Theorem modal_stack_push_pop g :
  well_formed g ->
  stackPointer g = 0 ->
  let full := snd (Pushes 5 g) in
  fst (Pushes 5 g) = [Ok; Ok; Ok; Ok; Ok] /\
  stackPointer full = 5 /\
  Push full = (Err StackOverflow, full) /\
  (forall j : nat, (j < 5)%nat -> frame (snd (Push full)) j = frame full j) /\
  feedrate (snd (Push full)) = feedrate full /\
  Pop g = (Err StackUnderflow, g) /\
  (forall g0 (f : float),
     well_formed g0 -> fst (Push g0) = Ok ->
     fst (Pop (SetFeedrate f (snd (Push g0)))) = Ok /\
     feedrate (snd (Pop (SetFeedrate f (snd (Push g0))))) = feedrate g0).
Proof.
  intros Hwf Hsp.
  assert (Hfull : fst (Pushes 5 g) = [Ok; Ok; Ok; Ok; Ok] /\
                  stackPointer (snd (Pushes 5 g)) = 5).
  { destruct g; simpl in Hsp; subst. split; reflexivity. }
  destruct Hfull as [Hres Hdepth].
  assert (Hover : Push (snd (Pushes 5 g)) = (Err StackOverflow, snd (Pushes 5 g))).
  { apply Push_at_limit. rewrite Hdepth. unfold STACK. lia. }
  cbv zeta. rewrite Hover. simpl snd.
  repeat split; auto.
  - unfold Pop. rewrite Hsp. reflexivity.
  - by apply (Push_change_Pop g0 f).
  - by apply (Push_change_Pop g0 f).
Qed.

Lemma initial_well_formed : well_formed initial.
Proof.
  unfold well_formed, initial, STACK. simpl. repeat split; lia.
Qed.

Lemma modal_stack_push_pop_witness :
  stackPointer initial = 0 /\
  fst (Pushes 5 initial) = [Ok; Ok; Ok; Ok; Ok] /\
  fst (Push (snd (Pushes 5 initial))) = Err StackOverflow /\
  fst (Pop initial) = Err StackUnderflow.
Proof.
  pose proof (modal_stack_push_pop initial initial_well_formed eq_refl) as H.
  cbv zeta in H.
  destruct H as (H1 & _ & H3 & _ & _ & H6 & _).
  split; [reflexivity|]. split; [exact H1|].
  split; [rewrite H3; reflexivity | rewrite H6; reflexivity].
Defined.

End ModalStateStack.

(** ** The deferred command queue *)

Section DeferredQueue.

Import CodeQueue.

Implicit Type q : CodeQueue.t.
Implicit Type it : CodeQueueItem.

Lemma due_Due (c : Z) it : due c it = true <-> Due c it.
Proof. unfold due, Due. apply Z.leb_le. Qed.

Lemma scan_filter (c : Z) (active released : list CodeQueueItem) :
  scan c active released =
  (filter (Due c) active,
   filter (fun it => ~ Due c it) active,
   rev (filter (Due c) active) ++ released).
Proof.
  revert released. induction active as [|it rest IH]; intro released.
  - reflexivity.
  - simpl scan. destruct (due c it) eqn:E.
    + apply due_Due in E. rewrite IH.
      rewrite (filter_cons_True (Due c)) by exact E.
      rewrite (filter_cons_False (fun it => ~ Due c it)) by tauto.
      simpl rev. by rewrite <- app_assoc.
    + assert (Hn : ~ Due c it) by (rewrite <- due_Due, E; discriminate).
      rewrite IH.
      rewrite (filter_cons_False (Due c)) by exact Hn.
      by rewrite (filter_cons_True (fun it => ~ Due c it)) by exact Hn.
Qed.

Lemma PollDue_filter (c : Z) q :
  PollDue c q =
  (filter (Due c) (internalCodeQueue q),
   CodeQueue.mk (filter (fun it => ~ Due c it) (internalCodeQueue q))
                (rev (filter (Due c) (internalCodeQueue q)) ++ releasedQueueItems q)).
Proof. unfold PollDue. by rewrite scan_filter. Qed.



Lemma empty_well_formed : well_formed empty.
Proof.
  unfold well_formed, empty, codeQueueLength. simpl. split; [|reflexivity].
  apply NoDup_ListNoDup. repeat constructor; simpl; intuition lia.
Qed.

Lemma Enqueue_well_formed gb (target : Z) q :
  well_formed q -> well_formed (snd (Enqueue gb target q)).
Proof.
  intros Hwf. unfold Enqueue.
  destruct (releasedQueueItems q) as [|it free] eqn:E; [exact Hwf|].
  destruct Hwf as [Hnd Hlen]. rewrite E in Hnd, Hlen.
  simpl. unfold well_formed. simpl.
  assert (Hp : (internalCodeQueue q ++ [Init gb target it]) ++ free
               ≡ₚ Init gb target it :: internalCodeQueue q ++ free).
  { rewrite <- app_assoc. simpl. by rewrite <- Permutation_middle. }
  split.
  - rewrite Hp. rewrite fmap_cons. simpl addr.
    rewrite <- Permutation_middle, fmap_cons in Hnd. exact Hnd.
  - rewrite Hp. simpl. rewrite <- Permutation_middle in Hlen. exact Hlen.
Qed.

Lemma pending_bound q : well_formed q -> (pending q <= codeQueueLength)%nat.
Proof.
  intros [_ Hlen]. unfold pending. rewrite length_app in Hlen. lia.
Qed.

Lemma full_iff_no_free q :
  well_formed q -> (pending q = codeQueueLength <-> releasedQueueItems q = []).
Proof.
  intros [_ Hlen]. unfold pending. rewrite length_app in Hlen.
  split; intro H.
  - apply length_zero_iff_nil. lia.
  - rewrite H in Hlen. simpl in Hlen. lia.
Qed.

Lemma Enqueue_Ok_inv gb (target : Z) q :
  fst (Enqueue gb target q) = Ok ->
  exists it free,
    releasedQueueItems q = it :: free /\
    Enqueue gb target q =
      (Ok, CodeQueue.mk (internalCodeQueue q ++ [Init gb target it]) free).
Proof.
  unfold Enqueue. destruct (releasedQueueItems q) as [|it free]; simpl.
  - discriminate.
  - intros _. by exists it, free.
Qed.

Lemma Enqueue_free_record gb (target : Z) q :
  releasedQueueItems q <> [] -> fst (Enqueue gb target q) = Ok.
Proof.
  unfold Enqueue. by destruct (releasedQueueItems q).
Qed.

Lemma Enqueue_no_free_record gb (target : Z) q :
  releasedQueueItems q = [] -> Enqueue gb target q = (Err QueueFull, q).
Proof.
  unfold Enqueue. intros ->. reflexivity.
Qed.




Lemma Enqueues_snoc codes gb (target : Z) q :
  Enqueues (codes ++ [(gb, target)]) q =
  (fst (Enqueues codes q) ++ [fst (Enqueue gb target (snd (Enqueues codes q)))],
   snd (Enqueue gb target (snd (Enqueues codes q)))).
Proof.
  revert q. induction codes as [|[gb0 t0] rest IH]; intro q; simpl.
  - by destruct (Enqueue gb target q).
  - destruct (Enqueue gb0 t0 q) as [r q1]. rewrite IH.
    by destruct (Enqueues rest q1).
Qed.

Lemma Enqueues_room codes q :
  well_formed q ->
  (pending q + length codes <= codeQueueLength)%nat ->
  fst (Enqueues codes q) = replicate (length codes) Ok /\
  pending (snd (Enqueues codes q)) = (pending q + length codes)%nat /\
  well_formed (snd (Enqueues codes q)).
Proof.
  revert q. induction codes as [|[gb t] rest IH]; intros q Hwf Hroom; simpl.
  - split; [reflexivity | split; [lia | exact Hwf]].
  - simpl in Hroom.
    assert (Hfree : releasedQueueItems q <> []).
    { intro Hnil. apply full_iff_no_free in Hnil; [lia | exact Hwf]. }
    pose proof (Enqueue_well_formed gb t q Hwf) as Hwf1.
    destruct (Enqueue_Ok_inv gb t q (Enqueue_free_record gb t q Hfree))
      as (it & free & Hrel & Henq).
    rewrite Henq in *. simpl in Hwf1.
    set (q1 := CodeQueue.mk (internalCodeQueue q ++ [Init gb t it]) free) in *.
    assert (Hp1 : pending q1 = S (pending q)).
    { unfold pending, q1. simpl. rewrite length_app. simpl. lia. }
    destruct (IH q1 Hwf1) as (Hr & Hp & Hw); [lia|].
    destruct (Enqueues rest q1) as [rs q2]. simpl in *.
    split; [by rewrite Hr | split; [lia | exact Hw]].
Qed.

(** C4: the queue holds at most [codeQueueLength] = 8 pending items.  With
    fewer than 8 pending an [Enqueue] succeeds and one more item is
    pending; with 8 pending it fails with QueueFull and the queue is as it
    was; once [PollDue] has released at least one item an [Enqueue]
    succeeds again; and from the empty queue 8 enqueues in a row succeed
    and a 9th fails with QueueFull, changing nothing. *)
Theorem queue_capacity_eight gb (target : Z) q :
  well_formed q ->
  (pending q <= 8)%nat /\
  ((pending q < 8)%nat ->
     fst (Enqueue gb target q) = Ok /\
     pending (snd (Enqueue gb target q)) = S (pending q)) /\
  (pending q = 8%nat -> Enqueue gb target q = (Err QueueFull, q)) /\
  (forall c : Z,
     fst (PollDue c q) <> [] ->
     fst (Enqueue gb target (snd (PollDue c q))) = Ok) /\
  (forall codes,
     length codes = 8%nat ->
     Enqueues (codes ++ [(gb, target)]) empty =
       (replicate 8 Ok ++ [Err QueueFull], snd (Enqueues codes empty)) /\
     pending (snd (Enqueues codes empty)) = 8%nat).
Proof.
  intro Hwf.
  pose proof (pending_bound q Hwf) as Hb.
  pose proof (full_iff_no_free q Hwf) as Hfull.
  unfold codeQueueLength in *.
  split; [exact Hb|]. split; [|split; [|split]].
  - intro Hlt.
    assert (Hfree : releasedQueueItems q <> []) by (intro Hn; apply Hfull in Hn; lia).
    destruct (Enqueue_Ok_inv gb target q (Enqueue_free_record gb target q Hfree))
      as (it & free & _ & Henq).
    rewrite Henq. simpl. split; [reflexivity|].
    unfold pending. simpl. rewrite length_app. simpl. lia.
  - intro H8. apply Enqueue_no_free_record. by apply Hfull.
  - intros c Hout. apply Enqueue_free_record.
    rewrite PollDue_filter in *. simpl in *.
    destruct (filter (Due c) (internalCodeQueue q)) as [|x out] using rev_ind;
      [done|].
    rewrite rev_app_distr. simpl. discriminate.
  - intros codes Hlen.
    destruct (Enqueues_room codes empty empty_well_formed) as (Hr & Hp & Hw).
    { unfold pending, empty, codeQueueLength. simpl. lia. }
    rewrite Hlen in Hr, Hp. unfold pending at 2 in Hp. simpl in Hp.
    split; [|exact Hp].
    rewrite Enqueues_snoc, Hr.
    rewrite Enqueue_no_free_record; [reflexivity|].
    by apply (full_iff_no_free _ Hw).
Qed.

Lemma queue_capacity_eight_witness :
  let gb := GCodeBuffer.holding "serial" "M106 S255" in
  let codes := replicate 8 (gb, 3) in
  fst (Enqueues (codes ++ [(gb, 3)]) empty) = replicate 8 Ok ++ [Err QueueFull] /\
  pending (snd (Enqueues codes empty)) = 8%nat.
Proof.
  pose proof (queue_capacity_eight (GCodeBuffer.holding "serial" "M106 S255") 3
                empty empty_well_formed) as (_ & _ & _ & _ & H).
  destruct (H (replicate 8 (GCodeBuffer.holding "serial" "M106 S255", 3)) eq_refl)
    as [H1 H2].
  cbv zeta. split; [rewrite H1; reflexivity | exact H2].
Defined.





End DeferredQueue.

(** ** The move buffer as the boundary to the Move class *)

Section MoveHandoff.

Import MoveBuffer.

Lemma run_snoc (m : list float) (es : list Event) (e : Event) :
  run m (es ++ [e]) = step e (run m es).
Proof. unfold run. by rewrite fold_left_app. Qed.

Lemma step_agrees (e : Event) (s : MoveBuffer.t * list MoveRequest) :
  agrees s -> agrees (step e s).
Proof.
  destruct s as [g unread]. unfold agrees. simpl. intros ->.
  destruct e as [[[m ce]|] | | |]; unfold SetUpMove, ReadMove;
    destruct (moveAvailable g) eqn:E; simpl; rewrite ?E; reflexivity.
Qed.

Lemma run_agrees (m : list float) (es : list Event) : agrees (run m es).
Proof.
  induction es as [|e es IH] using rev_ind.
  - reflexivity.
  - rewrite run_snoc. by apply step_agrees.
Qed.

(** C5: in every state the coordinator can reach, at most one move
    request is loaded and not yet read through [ReadMove].  While one is
    unread a further [SetUpMove] loads nothing and leaves the buffer as it
    is, so a load only ever happens into a free buffer, and [ReadMove]
    hands over exactly the request that was loaded. *)
Theorem at_most_one_move_pending (m : list float) (es : list Event) :
  let g := fst (run m es) in
  let unread := snd (run m es) in
  (length unread <= 1)%nat /\
  (moveAvailable g = true <-> length unread = 1%nat) /\
  (forall parsed, unread <> [] -> SetUpMove parsed g = (None, g)) /\
  (forall parsed, fst (SetUpMove parsed g) = Some Ok -> unread = []) /\
  (forall parsed, (length (snd (step (EvSetUpMove parsed) (run m es))) <= 1)%nat) /\
  fst (ReadMove g) = head unread /\
  snd (step EvReadMove (run m es)) = [].
Proof.
  pose proof (run_agrees m es) as Hag.
  destruct (run m es) as [g unread]. unfold agrees in Hag. simpl in *.
  subst unread.
  destruct (moveAvailable g) eqn:E; simpl.
  - split; [lia|]. split; [tauto|]. split; [|split; [|split; [|split]]].
    + intros parsed _. unfold SetUpMove. by rewrite E.
    + intros parsed. unfold SetUpMove. rewrite E. discriminate.
    + intros parsed. unfold SetUpMove. rewrite E. simpl. lia.
    + unfold ReadMove. by rewrite E.
    + unfold ReadMove. by rewrite E.
  - split; [lia|]. split; [split; [discriminate | simpl; lia]|].
    split; [|split; [|split; [|split]]].
    + intros parsed Hne. contradiction.
    + reflexivity.
    + intros [[mv ce]|]; unfold SetUpMove; rewrite E; simpl; lia.
    + unfold ReadMove. by rewrite E.
    + unfold ReadMove. by rewrite E.
Qed.

Lemma at_most_one_move_pending_witness :
  let first := ([float_zero; float_zero], 0) in
  let second := ([float_minus_one; float_zero], 0) in
  let s := run [float_zero; float_zero] [EvSetUpMove (Some first)] in
  snd s = [first] /\
  SetUpMove (Some second) (fst s) = (None, fst s) /\
  fst (ReadMove (fst s)) = Some first.
Proof.
  pose proof (at_most_one_move_pending [float_zero; float_zero]
                [EvSetUpMove (Some ([float_zero; float_zero], 0))])
    as (_ & _ & Hbusy & _ & _ & Hread & _).
  cbv zeta. split; [reflexivity|]. split.
  - apply Hbusy. discriminate.
  - rewrite Hread. reflexivity.
Defined.

End MoveHandoff.

(** ** Checksummed lines *)

Section ChecksumFraming.

Import GCodeBuffer.

Implicit Type gb : GCodeBuffer.t.








Lemma SetCommsProperties_bit0 (arg : Z) gb :
  checksumRequired (SetCommsProperties arg gb) = Z.testbit arg 0.
Proof.
  unfold SetCommsProperties, set_checksumRequired. cbn [checksumRequired].
  rewrite Z.bit0_odd.
  change 1 with (Z.ones 1). rewrite Z.land_ones by lia.
  change (2 ^ 1) with 2.
  rewrite Z.mod_mod_divide by (by exists (2 ^ 31)).
  rewrite Zmod_odd. by destruct (Z.odd arg).
Qed.






End ChecksumFraming.

(** ** Runs of lifecycle calls on a buffer *)

Section LifecycleRuns.

Import GCodeBuffer.

Implicit Type gb : GCodeBuffer.t.
Implicit Type cs : list Call.

Lemma calls_snoc cs (c : Call) gb : calls (cs ++ [c]) gb = call c (calls cs gb).
Proof. unfold calls. by rewrite fold_left_app. Qed.

Lemma call_keeps_idle (c : Call) gb : state gb = idle -> state (call c gb) = idle.
Proof.
  intro Hidle. destruct c as [[|] | |]; simpl;
    unfold SetFinished, Pause, Resume; simpl; rewrite ?Hidle; simpl; auto.
Qed.

Lemma call_same_settings (c : Call) gb : same_settings (call c gb) gb.
Proof.
  destruct c as [[|] | |]; simpl; unfold SetFinished, Pause, Resume; simpl;
    try destruct (State_eqb (state gb) _); by repeat split.
Qed.

Lemma call_same_beyond_first (c : Call) gb : same_beyond_first (call c gb) gb.
Proof.
  destruct c as [[|] | |]; simpl; unfold SetFinished, Pause, Resume; simpl;
    try destruct (State_eqb (state gb) _); split; simpl; auto.
  - apply length_insert.
  - intros i Hi. apply list_lookup_insert_ne. lia.
Qed.

Lemma call_first_cell (c : Call) gb :
  gcodeBuffer (call c gb) = gcodeBuffer gb \/
  (c = CallSetFinished true /\ gcodeBuffer (call c gb) = <[0%nat := NUL]> (gcodeBuffer gb)).
Proof.
  destruct c as [[|] | |]; simpl; unfold SetFinished, Pause, Resume; simpl;
    try destruct (State_eqb (state gb) _); auto.
Qed.

Lemma SetFinished_true_absorbs_call (c : Call) gb :
  SetFinished true (call c gb) = SetFinished true gb.
Proof.
  destruct c as [[|] | |]; simpl; unfold SetFinished, Pause, Resume; simpl;
    try destruct (State_eqb (state gb) _); unfold set_gcodeBuffer, set_state; simpl;
    rewrite ?list_insert_insert_eq; reflexivity.
Qed.

Lemma CString_empty_iff (buf : list ascii) :
  CString buf = [] <-> buf = [] \/ buf !! 0%nat = Some NUL.
Proof.
  destruct buf as [|c rest]; simpl.
  - tauto.
  - destruct (Ascii.eqb_spec c NUL) as [->|Hne]; split; intro H; auto.
    + discriminate.
    + destruct H as [H|H]; [discriminate | congruence].
Qed.

(** X1: pausing and then resuming gives back the very same buffer unless
    it was already paused, and resuming and then pausing gives it back
    unless it was executing. *)
Theorem Pause_Resume_round_trip gb :
  (Resume (Pause gb) = gb <-> state gb <> paused) /\
  (Pause (Resume gb) = gb <-> state gb <> executing).
Proof.
  destruct gb as [p b i gp rp ic cr st w ta].
  destruct st; unfold Pause, Resume, set_state; simpl; split; split;
    intro H; try reflexivity; try discriminate; try congruence.
Qed.

(** X2: no run of [SetFinished], [Pause] and [Resume] calls takes an idle
    buffer out of the idle state; in particular [SetFinished(false)] does
    not start execution and [Active] stays false. *)
Theorem idle_stays_idle cs gb :
  state gb = idle ->
  state (calls cs gb) = idle /\ Active (calls cs gb) = false.
Proof.
  intro Hidle.
  assert (H : state (calls cs gb) = idle).
  { induction cs as [|c cs IH] using rev_ind; [exact Hidle|].
    rewrite calls_snoc. by apply call_keeps_idle. }
  split; [exact H|]. unfold Active. by rewrite H.
Qed.

Lemma idle_stays_idle_witness :
  let gb := holding "serial" "G28" in
  state (calls [CallSetFinished false; CallResume; CallPause; CallResume] gb) = idle.
Proof.
  exact (proj1 (idle_stays_idle
                  [CallSetFinished false; CallResume; CallPause; CallResume]
                  (holding "serial" "G28") eq_refl)).
Defined.

(** X3: a run of lifecycle calls writes nothing but [state] and the first
    cell of the array: every other member, the size of the array and its
    cells from index 1 on are as before, and the first cell is as before
    or NUL. *)
Theorem calls_write_state_and_first_cell_only cs gb :
  same_settings (calls cs gb) gb /\
  same_beyond_first (calls cs gb) gb /\
  (gcodeBuffer (calls cs gb) !! 0%nat = gcodeBuffer gb !! 0%nat \/
   gcodeBuffer (calls cs gb) !! 0%nat = Some NUL).
Proof.
  induction cs as [|c cs IH] using rev_ind.
  - unfold calls. simpl. split; [by repeat split|]. split; [by split|]. by left.
  - rewrite calls_snoc. destruct IH as (Hs & [Hlen Hrest] & Hfirst).
    pose proof (call_same_settings c (calls cs gb)) as Hs1.
    pose proof (call_same_beyond_first c (calls cs gb)) as [Hlen1 Hrest1].
    split; [|split].
    + unfold same_settings in *.
      destruct Hs as (?&?&?&?&?&?&?&?), Hs1 as (?&?&?&?&?&?&?&?).
      repeat split; congruence.
    + split; [congruence|]. intros i Hi. rewrite Hrest1 by exact Hi. by apply Hrest.
    + destruct (call_first_cell c (calls cs gb)) as [Heq | [_ Heq]]; rewrite Heq.
      * exact Hfirst.
      * destruct (gcodeBuffer (calls cs gb)) as [|x l] eqn:E; simpl.
        -- exact Hfirst.
        -- by right.
Qed.

(** X4: [SetFinished(true)] gives the same buffer whatever lifecycle calls
    came before it, and after it [Pause], [Resume] and a second
    [SetFinished] of either kind change nothing. *)
Theorem SetFinished_true_forgets_history cs gb :
  SetFinished true (calls cs gb) = SetFinished true gb /\
  (forall c : Call, call c (SetFinished true gb) = SetFinished true gb).
Proof.
  split.
  - induction cs as [|c cs IH] using rev_ind; [reflexivity|].
    by rewrite calls_snoc, SetFinished_true_absorbs_call.
  - intros [[|] | |]; simpl.
    + unfold SetFinished, set_gcodeBuffer, set_state. simpl.
      by rewrite list_insert_insert_eq.
    + reflexivity.
    + reflexivity.
    + reflexivity.
Qed.

(** X5: after a run of lifecycle calls the text of the buffer is what it
    was when the run has no [SetFinished(true)], and empty when it has
    one; so the text never grows. *)
Theorem text_after_calls cs gb :
  well_sized gb ->
  (CallSetFinished true ∉ cs -> gcodeBuffer (calls cs gb) = gcodeBuffer gb) /\
  (CallSetFinished true ∈ cs -> Text (calls cs gb) = []) /\
  (length (Text (calls cs gb)) <= length (Text gb))%nat.
Proof.
  intro Hsize. unfold well_sized, GCODE_LENGTH in Hsize.
  assert (Hno : CallSetFinished true ∉ cs -> gcodeBuffer (calls cs gb) = gcodeBuffer gb).
  { induction cs as [|c cs IH] using rev_ind; [reflexivity|].
    intro Hnot. rewrite not_elem_of_app, not_elem_of_cons in Hnot.
    destruct Hnot as (Hcs & Hc & _). rewrite calls_snoc.
    destruct (call_first_cell c (calls cs gb)) as [Heq | [Heq _]].
    - rewrite Heq. by apply IH.
    - congruence. }
  assert (Hyes : CallSetFinished true ∈ cs -> Text (calls cs gb) = []).
  { clear Hno. induction cs as [|c cs IH] using rev_ind.
    - intro Hin. by apply elem_of_nil in Hin.
    - intro Hin. rewrite calls_snoc.
      pose proof (calls_write_state_and_first_cell_only cs gb) as (_ & [Hlen _] & _).
      unfold Text, Buffer. apply CString_empty_iff. right.
      destruct (call_first_cell c (calls cs gb)) as [Heq | [_ Heq]]; rewrite Heq.
      + apply elem_of_app in Hin as [Hin | Hin].
        * specialize (IH Hin). unfold Text, Buffer in IH.
          apply CString_empty_iff in IH as [IH | IH]; [|exact IH].
          rewrite IH in Hlen. simpl in Hlen. lia.
        * apply list_elem_of_singleton in Hin. subst c.
          simpl in Heq. unfold SetFinished in Heq. simpl in Heq.
          rewrite <- Heq. apply list_lookup_insert_eq. lia.
      + apply list_lookup_insert_eq. lia. }
  split; [exact Hno|]. split; [exact Hyes|].
  destruct (decide (CallSetFinished true ∈ cs)) as [Hin | Hnot].
  - rewrite (Hyes Hin). simpl. lia.
  - unfold Text, Buffer. by rewrite (Hno Hnot).
Qed.

Lemma text_after_calls_witness :
  let gb := set_state executing (holding "file" "G1 X5") in
  Text (calls [CallPause; CallResume] gb) = Text gb /\
  Text (calls [CallPause; CallSetFinished true; CallResume] gb) = [].
Proof.
  pose proof (text_after_calls [CallPause; CallSetFinished true; CallResume]
                (set_state executing (holding "file" "G1 X5")) eq_refl)
    as (_ & H & _).
  split; [reflexivity|]. apply H.
  apply elem_of_cons. right. apply elem_of_cons. by left.
Defined.

End LifecycleRuns.

(** ** Channel settings *)

Section ChannelSettings.

Import GCodeBuffer.

Implicit Type gb : GCodeBuffer.t.

Lemma SetCommsProperties_odd (arg : Z) gb :
  SetCommsProperties arg gb = set_checksumRequired (Z.odd arg) gb.
Proof.
  pose proof (SetCommsProperties_bit0 arg gb) as H.
  unfold SetCommsProperties in *.
  change (negb (Z.land (arg mod UINT_MOD) 1 =? 0) = Z.testbit arg 0) in H.
  by rewrite H, Z.bit0_odd.
Qed.

Lemma call_configure (c : Call) (s : Setting) gb :
  call c (configure s gb) = configure s (call c gb).
Proof.
  destruct c as [[|] | |], s; simpl;
    unfold SetFinished, Pause, Resume, SetToolNumberAdjust,
      SetWritingFileDirectory, SetCommsProperties; simpl;
    try destruct (State_eqb (state gb) _); reflexivity.
Qed.

Lemma calls_configure (cs : list Call) (s : Setting) gb :
  calls cs (configure s gb) = configure s (calls cs gb).
Proof.
  induction cs as [|c cs IH] using rev_ind; [reflexivity|].
  by rewrite !calls_snoc, IH, call_configure.
Qed.

(** X6: [SetCommsProperties] looks at bit 0 of its argument and nothing
    else: checksums are required afterwards exactly when the argument is
    odd, two arguments of the same parity give the same buffer, adding
    2^32 to the argument changes nothing, and a later call overrides an
    earlier one. *)
Theorem SetCommsProperties_parity (arg arg' : Z) gb :
  checksumRequired (SetCommsProperties arg gb) = Z.odd arg /\
  (Z.odd arg = Z.odd arg' -> SetCommsProperties arg gb = SetCommsProperties arg' gb) /\
  SetCommsProperties (arg + UINT_MOD) gb = SetCommsProperties arg gb /\
  SetCommsProperties arg (SetCommsProperties arg' gb) = SetCommsProperties arg gb.
Proof.
  rewrite !SetCommsProperties_odd. simpl. split; [reflexivity|].
  split; [by intros ->|]. split; [|reflexivity].
  rewrite Z.odd_add. change (Z.odd UINT_MOD) with false.
  by rewrite xorb_false_r.
Qed.

Lemma to_int_in_range (z : Z) : - 2 ^ 31 <= z < 2 ^ 31 -> to_int z = z.
Proof.
  intro H. unfold to_int, UINT_MOD. rewrite Z.mod_small by lia. lia.
Qed.

(** X7: the three configuring members and the lifecycle members do not
    interfere.  Configuring before a run of lifecycle calls or after it
    gives the same buffer; configuring changes neither the state nor the
    array; and after any run of lifecycle calls a tool-number adjustment
    is read back as the [int] value of the argument, which is the
    argument itself when that is within the range of [int], a file
    directory is read back as set, and the checksum policy is the parity
    of the argument. *)
Theorem settings_independent_of_lifecycle (s : Setting) (cs : list Call) gb :
  calls cs (configure s gb) = configure s (calls cs gb) /\
  state (configure s gb) = state gb /\
  gcodeBuffer (configure s gb) = gcodeBuffer gb /\
  Active (configure s gb) = Active gb /\
  (forall arg : Z,
     GetToolNumberAdjust (calls cs (SetToolNumberAdjust arg gb)) = to_int arg) /\
  (forall arg : Z,
     - 2 ^ 31 <= arg < 2 ^ 31 ->
     GetToolNumberAdjust (calls cs (SetToolNumberAdjust arg gb)) = arg) /\
  (forall wfd : option string,
     WritingFileDirectory (calls cs (SetWritingFileDirectory wfd gb)) = wfd) /\
  (forall arg : Z,
     checksumRequired (calls cs (SetCommsProperties arg gb)) = Z.odd arg).
Proof.
  split; [apply calls_configure|].
  split; [by destruct s|]. split; [by destruct s|]. split; [by destruct s|].
  assert (Htool : forall arg : Z,
            GetToolNumberAdjust (calls cs (SetToolNumberAdjust arg gb)) = to_int arg).
  { intro arg.
    change (SetToolNumberAdjust arg gb) with (configure (SettingToolNumberAdjust arg) gb).
    by rewrite calls_configure. }
  split; [exact Htool|]. split; [|split].
  - intros arg Hrange. rewrite Htool. by apply to_int_in_range.
  - intro wfd.
    change (SetWritingFileDirectory wfd gb)
      with (configure (SettingWritingFileDirectory wfd) gb).
    by rewrite calls_configure.
  - intro arg.
    change (SetCommsProperties arg gb) with (configure (SettingCommsProperties arg) gb).
    rewrite calls_configure. cbn [configure]. by rewrite SetCommsProperties_odd.
Qed.

Lemma settings_independent_of_lifecycle_witness :
  let gb := set_state executing (holding "aux" "T1") in
  GetToolNumberAdjust (calls [CallPause; CallResume] (SetToolNumberAdjust (-1) gb)) = -1 /\
  GetToolNumberAdjust (SetToolNumberAdjust 2147483648 gb) = -2147483648 /\
  GetToolNumberAdjust (SetToolNumberAdjust 4294967301 gb) = 5.
Proof.
  pose proof (settings_independent_of_lifecycle (SettingToolNumberAdjust 0)
                [CallPause; CallResume] (set_state executing (holding "aux" "T1")))
    as (_ & _ & _ & _ & _ & H & _).
  cbv zeta. split; [apply H; lia|]. split; reflexivity.
Defined.

End ChannelSettings.

(** ** Homed axes *)

Section HomedAxes.

Import Homing.

Implicit Type g : Homing.t.






End HomedAxes.

(** ** Pausing and resuming in any order *)

Section LastCallDecides.

Import GCodeBuffer.

Implicit Type gb : GCodeBuffer.t.

Lemma run_without_finish (cs : list Call) gb :
  state gb <> idle ->
  CallSetFinished true ∉ cs ->
  exists st, st <> idle /\ calls cs gb = set_state st gb.
Proof.
  intros Hlive. induction cs as [|c cs IH] using rev_ind; intro Hnot.
  - exists (state gb). split; [exact Hlive|]. by destruct gb.
  - rewrite not_elem_of_app, not_elem_of_cons in Hnot.
    destruct Hnot as (Hcs & Hc & _).
    destruct (IH Hcs) as (st & Hst & Hrun).
    rewrite calls_snoc, Hrun.
    destruct c as [[|] | |]; [congruence | | |].
    + by exists st.
    + exists paused. split; [discriminate|].
      destruct st; [congruence | reflexivity | reflexivity].
    + exists executing. split; [discriminate|].
      destruct st; [congruence | reflexivity | reflexivity].
Qed.

(** X9: on a buffer that is not idle, a run of calls without
    [SetFinished(true)] that ends in [Pause] leaves the buffer paused and
    one that ends in [Resume] leaves it executing, whatever came before;
    nothing but the state differs from the buffer at the start. *)
Theorem last_pause_or_resume_decides (cs : list Call) gb :
  state gb <> idle ->
  CallSetFinished true ∉ cs ->
  calls (cs ++ [CallPause]) gb = set_state paused gb /\
  calls (cs ++ [CallResume]) gb = set_state executing gb /\
  Active (calls (cs ++ [CallPause]) gb) = false /\
  Active (calls (cs ++ [CallResume]) gb) = true.
Proof.
  intros Hlive Hnot.
  destruct (run_without_finish cs gb Hlive Hnot) as (st & Hst & Hrun).
  assert (HP : calls (cs ++ [CallPause]) gb = set_state paused gb).
  { rewrite calls_snoc, Hrun.
    destruct st; [congruence | reflexivity | reflexivity]. }
  assert (HR : calls (cs ++ [CallResume]) gb = set_state executing gb).
  { rewrite calls_snoc, Hrun.
    destruct st; [congruence | reflexivity | reflexivity]. }
  rewrite HP, HR. by repeat split.
Qed.

Lemma last_pause_or_resume_decides_witness :
  let gb := set_state paused (holding "file" "G1 X5") in
  calls [CallPause; CallSetFinished false; CallResume; CallPause] gb = gb /\
  state (calls [CallPause; CallPause; CallResume] gb) = executing.
Proof.
  assert (Hlive : state (set_state paused (holding "file" "G1 X5")) <> idle)
    by discriminate.
  assert (Hnot1 : CallSetFinished true ∉ [CallPause; CallSetFinished false; CallResume]).
  { rewrite !not_elem_of_cons. repeat split; try discriminate. apply not_elem_of_nil. }
  assert (Hnot2 : CallSetFinished true ∉ [CallPause; CallPause]).
  { rewrite !not_elem_of_cons. repeat split; try discriminate. apply not_elem_of_nil. }
  pose proof (last_pause_or_resume_decides
                [CallPause; CallSetFinished false; CallResume]
                (set_state paused (holding "file" "G1 X5")) Hlive Hnot1) as (H1 & _).
  pose proof (last_pause_or_resume_decides [CallPause; CallPause]
                (set_state paused (holding "file" "G1 X5")) Hlive Hnot2) as (_ & H2 & _).
  cbv zeta. split.
  - exact H1.
  - change [CallPause; CallPause; CallResume] with ([CallPause; CallPause] ++ [CallResume]).
    rewrite H2. reflexivity.
Defined.

End LastCallDecides.
